(** * BoardgameGeek metadata source: a shallow embedding of [bggeek_source.py]

    The plugin is embedded function by function.  Python values keep their
    shape: [str] is [string], [int] is [Z], a [dict] with string keys is a
    [gmap string _], [None]-able values are [option]s, and a call that can
    raise returns a [Result].  Calls that talk to the host application (the
    browser, the parser, the result queue) run in a state-and-exception monad
    over a [World] that records the queue and the requests issued.

    What is left out: the calls to [log.debug], which change nothing the
    plugin reads; the [abort] and [timeout] arguments of [identify], which
    the plugin never looks at.  Characters are 8-bit, so [\d], [int] and
    [str.isspace] are their ASCII versions, and [int] reads a run of digits
    of any length. *)

From Stdlib Require Import ZArith String Ascii List Bool Lia Sorted.
From stdpp Require Import base option list gmap strings.

Local Open Scope string_scope.
Local Open Scope list_scope.
Local Open Scope Z_scope.

(** ** Exceptions and fallible computations *)

Inductive Exception : Type :=
  | TypeError
  | KeyError (key : string)
  | ValueError
  | IndexError
  | HostError (msg : string).

Inductive Result (A : Type) : Type :=
  | Ok (a : A)
  | Raise (e : Exception).
Arguments Ok {A} a.
Arguments Raise {A} e.

Definition Result_bind {A B} (f : A → Result B) (r : Result A) : Result B :=
  match r with
  | Ok a => f a
  | Raise e => Raise e
  end.

#[global] Instance Result_ret : MRet Result := @Ok.
#[global] Instance Result_mbind : MBind Result := @Result_bind.

(** [[f x for x in xs]] where [f] may raise: the first failure wins. *)
Fixpoint Result_mapM {A B} (f : A → Result B) (xs : list A) : Result (list B) :=
  match xs with
  | [] => Ok []
  | x :: xs' => y ← f x; ys ← Result_mapM f xs'; Ok (y :: ys)
  end.

(** ** The parse tree (BeautifulSoup)

    A parsed document is a tree of tags and text nodes.  A tag has a name, a
    dictionary of attributes and an ordered list of children ([contents]). *)

#[warnings="-register-all"]
Inductive PageElement : Type :=
  | Tag (name : string) (attrs : gmap string string) (contents : list PageElement)
  | NavigableString (text : string).

Definition tag_name (e : PageElement) : option string :=
  match e with
  | Tag n _ _ => Some n
  | NavigableString _ => None
  end.

Definition tag_attrs (e : PageElement) : gmap string string :=
  match e with
  | Tag _ a _ => a
  | NavigableString _ => ∅
  end.

Definition tag_contents (e : PageElement) : list PageElement :=
  match e with
  | Tag _ _ cs => cs
  | NavigableString _ => []
  end.

(** All nodes below [e], in document order (what [find]/[find_all] walk). *)
Fixpoint descendants (e : PageElement) : list PageElement :=
  match e with
  | Tag _ _ cs => flat_map (λ c, c :: descendants c) cs
  | NavigableString _ => []
  end.

(** [name] matches the tag name; [type_], when given, is the required value
    of the [type] attribute (the [attrs={"type": ...}] filter). *)
Definition matches (name : string) (type_ : option string) (e : PageElement) : bool :=
  match e with
  | Tag n a _ =>
      bool_decide (n = name) &&
      match type_ with
      | None => true
      | Some t => bool_decide (a !! "type" = Some t)
      end
  | NavigableString _ => false
  end.

Definition find_all (soup : PageElement) (name : string) (type_ : option string)
  : list PageElement :=
  List.filter (matches name type_) (descendants soup).

Definition find (soup : PageElement) (name : string) (type_ : option string)
  : option PageElement :=
  head (find_all soup name type_).

(** [tag[key]]: a missing attribute raises [KeyError]. *)
Definition getitem (tag : PageElement) (key : string) : Result string :=
  match tag_attrs tag !! key with
  | Some v => Ok v
  | None => Raise (KeyError key)
  end.

(** [None[key]] is a [TypeError]. *)
Definition getitem_opt (tag : option PageElement) (key : string) : Result string :=
  match tag with
  | Some t => getitem t key
  | None => Raise TypeError
  end.

(** ** Python strings

    String algorithms run on the list of characters of a [str]. *)

Abbreviation chars := list_ascii_of_string.
Abbreviation str := string_of_list_ascii.

Definition is_digit (c : ascii) : bool :=
  (48 <=? nat_of_ascii c)%nat && (nat_of_ascii c <=? 57)%nat.

Definition digit_value (c : ascii) : Z := Z.of_nat (nat_of_ascii c) - 48.

(** ASCII characters for which [str.isspace] holds. *)
Definition isspace (c : ascii) : bool :=
  let n := nat_of_ascii c in
  ((9 <=? n) && (n <=? 13) || (28 <=? n) && (n <=? 32))%nat.

Fixpoint lstrip (p : ascii → bool) (s : list ascii) : list ascii :=
  match s with
  | c :: s' => if p c then lstrip p s' else s
  | [] => []
  end.

Definition rstrip (p : ascii → bool) (s : list ascii) : list ascii :=
  rev (lstrip p (rev s)).

Definition strip (p : ascii → bool) (s : list ascii) : list ascii :=
  rstrip p (lstrip p s).

(** [s.split(sep)] for a one-character separator: never returns the empty
    list, [''.split('/') == ['']]. *)
Fixpoint split (sep : ascii) (s : list ascii) : list (list ascii) :=
  match s with
  | [] => [[]]
  | c :: s' =>
      if bool_decide (c = sep) then [] :: split sep s'
      else match split sep s' with
           | seg :: segs => (c :: seg) :: segs
           | [] => [[c]]
           end
  end.

(** [sep.join(parts)]. *)
Fixpoint join (sep : string) (parts : list string) : string :=
  match parts with
  | [] => ""
  | [p] => p
  | p :: ps => p +:+ sep +:+ join sep ps
  end.

(** *** [int(s)]

    Surrounding whitespace is dropped, one sign is allowed, and the digits
    may be grouped by single underscores.  Anything else is a [ValueError]. *)
Fixpoint digits_value (acc : Z) (after_digit : bool) (s : list ascii) : option Z :=
  match s with
  | [] => if after_digit then Some acc else None
  | c :: s' =>
      if is_digit c then digits_value (10 * acc + digit_value c) true s'
      else if bool_decide (c = "_"%char) && after_digit then digits_value acc false s'
      else None
  end.

Definition int (s : string) : Result Z :=
  let body := strip isspace (chars s) in
  let '(negative, body) :=
    match body with
    | "-"%char :: rest => (true, rest)
    | "+"%char :: rest => (false, rest)
    | _ => (false, body)
    end in
  match digits_value 0 false body with
  | Some n => Ok (if negative : bool then - n else n)
  | None => Raise ValueError
  end.

(** *** [re.search(r"(\d+)\D*$", s)]

    A character class repeated greedily, with backtracking: the longest
    repetition is tried first, and shorter ones (never fewer than [min]) only
    when the rest of the pattern, the continuation [k], fails. *)
Fixpoint greedy {R} (cls : ascii → bool) (min : nat) (taken s : list ascii)
    (k : list ascii → list ascii → option R) : option R :=
  let stop := if bool_decide (min ≤ length taken)%nat then k taken s else None in
  match s with
  | c :: s' =>
      if cls c then
        match greedy cls min (taken ++ [c]) s' k with
        | Some r => Some r
        | None => stop
        end
      else stop
  | [] => stop
  end.

(** [$] without [re.MULTILINE]: the end of the string, or just before a
    newline that ends the string. *)
Definition at_end (s : list ascii) : bool :=
  match s with
  | [] => true
  | [c] => bool_decide (c = "010"%char)
  | _ => false
  end.

(** The pattern anchored at the start of [s]; the result is group 1. *)
Definition series_code_match_here (s : list ascii) : option (list ascii) :=
  greedy is_digit 1 [] s (λ group1 rest,
    greedy (λ c, negb (is_digit c)) 0 [] rest (λ _ rest',
      if at_end rest' then Some group1 else None)).

(** [re.search]: the leftmost position at which the pattern matches. *)
Fixpoint series_code_search (s : list ascii) : option (list ascii) :=
  match series_code_match_here s with
  | Some group1 => Some group1
  | None =>
      match s with
      | [] => None
      | _ :: s' => series_code_search s'
      end
  end.

(** *** [datetime(year, month, day)] *)

Record datetime : Type := { year : Z; month : Z; day : Z }.

Definition MINYEAR : Z := 1.
Definition MAXYEAR : Z := 9999.

Definition is_leap (y : Z) : bool :=
  (y mod 4 =? 0) && (negb (y mod 100 =? 0) || (y mod 400 =? 0)).

Definition days_in_month (y m : Z) : Z :=
  if m =? 2 then (if is_leap y then 29 else 28)
  else if (m =? 4) || (m =? 6) || (m =? 9) || (m =? 11) then 30
  else 31.

Definition datetime_new (y m d : Z) : Result datetime :=
  if negb ((MINYEAR <=? y) && (y <=? MAXYEAR)) then Raise ValueError
  else if negb ((1 <=? m) && (m <=? 12)) then Raise ValueError
  else if negb ((1 <=? d) && (d <=? days_in_month y m)) then Raise ValueError
  else Ok {| year := y; month := m; day := d |}.

(** ** Field extractors *)

Definition _ID_TYPE : string := "bggeek".
Definition _API_THING_URL : string := "https://boardgamegeek.com/xmlapi2/thing?id=".
Definition _API_SEARCH_URL : string := "https://boardgamegeek.com/xmlapi/search?search=".

Definition _get_pub_date (soup : PageElement) : Result (option datetime) :=
  match find soup "yearpublished" None with
  | None => Ok None
  | Some tag =>
      value ← getitem tag "value";
      year ← int value;
      if year <=? 0 then Ok None
      else d ← datetime_new year 1 1; Ok (Some d)
  end.

Definition _get_publisher (soup : PageElement) : Result (option string) :=
  match find soup "link" (Some "rpgpublisher") with
  | Some tag => v ← getitem tag "value"; Ok (Some v)
  | None => Ok None
  end.

Definition _get_series (soup : PageElement) : Result (string * Z) :=
  let series := "" in
  let index := 0 in
  series ← match find soup "link" (Some "rpgseries") with
           | Some series_tag => getitem series_tag "value"
           | None => Ok series
           end;
  index ← match find soup "seriescode" None with
          | Some series_code_tag =>
              series_code ← getitem series_code_tag "value";
              match series_code_search (chars series_code) with
              | Some group1 => int (str group1)
              | None => Ok 0
              end
          | None => Ok index
          end;
  Ok (series, index).

Definition _get_comments (soup : PageElement) : Result (option PageElement) :=
  match find soup "description" None with
  | None => Ok None
  | Some tag => Ok (head (tag_contents tag))
  end.

Definition _get_cover (soup : PageElement) : Result (option string) :=
  match find soup "image" None with
  | Some tag => v ← getitem tag "value"; Ok (Some v)
  | None => Ok None
  end.

(** ** Python library: URLs *)

(** [urllib.parse.urlparse].

    The six components of a parsed URL.  The splitting follows the standard
    library: leading control characters and blanks are dropped, tabs and
    line breaks removed, then scheme, network location, fragment, query and
    parameters are cut off in that order. *)
Record ParseResult : Type := {
  scheme : string;
  netloc : string;
  path : string;
  params : string;
  query : string;
  fragment : string;
}.

Definition is_alpha (c : ascii) : bool :=
  let n := nat_of_ascii c in
  ((65 <=? n) && (n <=? 90) || (97 <=? n) && (n <=? 122))%nat.

Definition is_scheme_char (c : ascii) : bool :=
  is_alpha c || is_digit c || bool_decide (c ∈ chars "+-.").

Definition lower (c : ascii) : ascii :=
  let n := nat_of_ascii c in
  if ((65 <=? n) && (n <=? 90))%nat then ascii_of_nat (n + 32) else c.

Definition is_char (c : ascii) : ascii → bool := λ c', bool_decide (c' = c).

(** The part of [s] before the first character satisfying [p], and the rest
    (which starts with that character, or is empty). *)
Fixpoint break_at (p : ascii → bool) (s : list ascii) : list ascii * list ascii :=
  match s with
  | [] => ([], [])
  | c :: s' =>
      if p c then ([], s)
      else let '(before, rest) := break_at p s' in (c :: before, rest)
  end.

(** [s.split(sep, 1)] when [sep] occurs in [s]; otherwise [(s, "")]. *)
Definition split_once (sep : ascii) (s : list ascii) : list ascii * list ascii :=
  let '(before, rest) := break_at (is_char sep) s in (before, tail rest).

Definition uses_params : list string :=
  [""; "ftp"; "hdl"; "prospero"; "http"; "imap"; "https"; "shttp"; "rtsp";
   "rtspu"; "sip"; "sips"; "mms"; "sftp"; "tel"].

(** [_splitparams]: the first [;] after the last [/]. *)
Definition _splitparams (url : list ascii) : list ascii * list ascii :=
  let '(after_rev, upto_rev) := break_at (is_char "/") (rev url) in
  let '(head_, tail_) :=
    match upto_rev with
    | [] => ([], url)
    | slash :: before_rev => (rev before_rev, slash :: rev after_rev)
    end in
  let '(before, rest) := break_at (is_char ";") tail_ in
  match rest with
  | [] => (url, [])
  | _ :: params => (head_ ++ before, params)
  end.

(** [xs[i]]: out of range is an [IndexError]. *)
Definition index {A} (xs : list A) (i : nat) : Result A :=
  match xs !! i with
  | Some x => Ok x
  | None => Raise IndexError
  end.

Section UrlParse.
(** The two validators of the standard library that look inside a network
    location: the address check of a bracketed host, and the normalisation
    check of a non-ASCII location.  They only decide between accepting the
    URL and a [ValueError]. *)
Variable bracketed_host_valid : string → bool.
Variable nfkc_netloc_valid : string → bool.

Definition urlparse (url : string) : Result ParseResult :=
  let url := lstrip (λ c, (nat_of_ascii c <=? 32)%nat) (chars url) in
  let url := List.filter (λ c, negb (bool_decide (c ∈ ["009"; "013"; "010"]%char))) url in
  let '(scheme, url) :=
    match break_at (is_char ":") url with
    | ((c0 :: _) as before, _ :: rest) =>
        if is_alpha c0 && forallb is_scheme_char before
        then (map lower before, rest) else ([], url)
    | _ => ([], url)
    end in
  '(netloc, url) ←
    match url with
    | "/"%char :: "/"%char :: rest =>
        let '(netloc, url) := break_at (λ c, bool_decide (c ∈ chars "/?#")) rest in
        let has_open := existsb (is_char "[") netloc in
        let has_close := existsb (is_char "]") netloc in
        if xorb has_open has_close then Raise ValueError
        else if has_open && has_close then
          let bracketed_host :=
            fst (split_once "]" (snd (split_once "[" netloc))) in
          if bracketed_host_valid (str bracketed_host) then Ok (netloc, url)
          else Raise ValueError
        else Ok (netloc, url)
    | _ => Ok ([], url)
    end;
  let '(url, fragment) := split_once "#" url in
  let '(url, query) := split_once "?" url in
  if negb (bool_decide (netloc = []) ||
           forallb (λ c, (nat_of_ascii c <? 128)%nat) netloc ||
           nfkc_netloc_valid (str netloc))
  then Raise ValueError
  else
    let '(url, params) :=
      if bool_decide (str scheme ∈ uses_params) && existsb (is_char ";") url
      then _splitparams url else (url, []) in
    Ok {| scheme := str scheme; netloc := str netloc; path := str url;
          params := str params; query := str query; fragment := str fragment |}.
End UrlParse.

(** ** Records *)

(** The record handed to the result queue.  Every field below is assigned
    by the plugin before the record leaves it; [title] and [authors] are the
    arguments of the constructor, [identifiers] holds what is passed to
    [set_identifier]. *)
Record Metadata : Type := {
  title : string;
  authors : list string;
  identifiers : gmap string string;
  pubdate : option datetime;
  publisher : option string;
  series : string;
  comments : option PageElement;
  series_index : Z;
  source : string;
  source_relevance : Z;
}.

(** ** The world of an [identify] call *)

(** What an [identify] call can change: the result queue it is given, and
    the requests it sends through the browser (kept in order). *)
Record World : Type := {
  result_queue : list Metadata;
  opened : list string;
}.

Definition M (A : Type) : Type := World → Result A * World.

#[global] Instance M_ret : MRet M := λ A a w, (Ok a, w).
#[global] Instance M_bind : MBind M := λ A B f m w,
  match m w with
  | (Ok a, w') => f a w'
  | (Raise e, w') => (Raise e, w')
  end.

Definition lift {A} (r : Result A) : M A := λ w, (r, w).

(** [result_queue.put(metadata)] *)
Definition put (metadata : Metadata) : M unit := λ w,
  (Ok (), {| result_queue := result_queue w ++ [metadata]; opened := opened w |}).

(** [for x in xs: body(x)]; an exception leaves the loop. *)
Fixpoint for_each {A} (body : A → M unit) (xs : list A) : M unit :=
  match xs with
  | [] => mret ()
  | x :: xs' => _ ← body x; for_each body xs'
  end.

Definition enumerate {A} (xs : list A) : list (Z * A) :=
  imap (λ i x, (Z.of_nat i, x)) xs.

(** What the plugin takes from its environment: the browser and the parser,
    two helpers of the plugin base class, and the two validators [urlparse]
    consults. *)
Class Host : Type := {
  open_novisit : string → Result string;
  BeautifulSoup : string → Result PageElement;
  get_title_tokens : option string → list string;
  clean_downloaded_metadata : Metadata → Metadata;
  bracketed_host_valid : string → bool;
  nfkc_netloc_valid : string → bool;
}.

(** Truth value of a [str]: only the empty string is falsy. *)
Definition truthy (s : string) : bool := negb (bool_decide (s = "")).

(** ** The plugin class *)

Module BGGeekSource.
Definition name : string := "BoardgameGeek".

Definition get_book_url (identifiers : gmap string string)
  : option (string * string * string) :=
  let bggeek_id := identifiers !! _ID_TYPE in
  match bggeek_id with
  | Some bggeek_id =>
      if truthy bggeek_id then
        Some (_ID_TYPE, bggeek_id, "https://boardgamegeek.com/boardgame/" +:+ bggeek_id)
      else None
  | None => None
  end.

Module _KeyGen.
Record t : Type := { relevance : Z }.

Definition __init__ (metadata : Metadata) : t :=
  {| relevance := source_relevance metadata |}.

Definition __eq__ (self other : t) : bool := relevance self =? relevance other.
Definition __ne__ (self other : t) : bool := negb (relevance self =? relevance other).
Definition __lt__ (self other : t) : bool := relevance self <? relevance other.
Definition __le__ (self other : t) : bool := relevance self <=? relevance other.
Definition __gt__ (self other : t) : bool := relevance self >? relevance other.
Definition __ge__ (self other : t) : bool := relevance self >=? relevance other.
End _KeyGen.

Definition identify_results_keygen (title : option string)
    (authors : option (list string)) (identifiers : option (gmap string string))
  : Metadata → _KeyGen.t :=
  let identifiers := default ∅ identifiers in
  let authors := default [] authors in
  let keygen := λ metadata, _KeyGen.__init__ metadata in
  keygen.

Section Source.
Context `{Host}.

Definition id_from_url (url : string) : Result (option (string * string)) :=
  parsed_url ← urlparse bracketed_host_valid nfkc_netloc_valid url;
  if negb (bool_decide (netloc parsed_url ∈
             ["rpggeek.com"; "boardgamegeek.com"; "videogamegeek.com"]))
  then Ok None
  else
    let path_parts :=
      map str (split "/" (strip (is_char "/") (chars (path parsed_url)))) in
    if bool_decide (length path_parts < 2)%nat then Ok None
    else
      first ← index path_parts 0;
      if negb (bool_decide (first = "boardgame")) then Ok None
      else second ← index path_parts 1; Ok (Some (_ID_TYPE, second)).

(** [self.browser.open_novisit(url)], leaving a trace of the request. *)
Definition browser_open (url : string) : M string := λ w,
  (open_novisit url,
   {| result_queue := result_queue w; opened := opened w ++ [url] |}).

Definition _get_metadata_from_thing_api (bggeek_id : string) (relevance : Z)
  : M unit :=
  response ← browser_open (_API_THING_URL +:+ bggeek_id);
  soup ← lift (BeautifulSoup response);
  if negb (bool_decide (is_Some (find soup "item" (Some "boardgameexpansion"))))
  then mret ()
  else
    title ← lift (getitem_opt (find soup "name" (Some "primary")) "value");
    authors ← lift (Result_mapM (λ x, getitem x "value")
                      (find_all soup "link" (Some "rpgdesigner")));
    pub_date ← lift (_get_pub_date soup);
    publisher ← lift (_get_publisher soup);
    '(series, index) ← lift (_get_series soup);
    comments ← lift (_get_comments soup);
    let metadata :=
      {| title := title; authors := authors;
         identifiers := {[ _ID_TYPE := bggeek_id ]};
         pubdate := pub_date; publisher := publisher; series := series;
         comments := comments; series_index := index; source := name;
         source_relevance := relevance |} in
    put (clean_downloaded_metadata metadata).

Definition _search_title (title : option string) : M unit :=
  let title_tokens := get_title_tokens title in
  let query := join "+" title_tokens in
  let query := _API_SEARCH_URL +:+ query in
  response ← browser_open query;
  soup ← lift (BeautifulSoup response);
  let items := find_all soup "item" (Some "rpgitem") in
  for_each (λ '(i, item),
              id ← lift (getitem item "id");
              _get_metadata_from_thing_api id i)
           (enumerate items).

Definition identify (title : option string) (authors : option (list string))
    (identifiers : option (gmap string string)) : M unit :=
  let identifiers := default ∅ identifiers in
  let authors := default [] authors in
  match identifiers !! _ID_TYPE with
  | Some bggeek_id =>
      if truthy bggeek_id then _get_metadata_from_thing_api bggeek_id 0
      else _search_title title
  | None => _search_title title
  end.
End Source.
End BGGeekSource.
Export BGGeekSource.

(** ** Sample documents and hosts

    Small parse trees and table-driven hosts on which the plugin is run. *)

Definition attrs_of (kvs : list (string * string)) : gmap string string :=
  list_to_map kvs.

Definition document (items : list PageElement) : PageElement :=
  Tag "[document]" ∅ [Tag "html" ∅ [Tag "body" ∅ [Tag "items" ∅ items]]].

(** A detail response: one item of kind [kind] with a primary name and a
    list of further children. *)
Definition thing_item (kind id primary : string) (more : list PageElement)
  : PageElement :=
  Tag "item" (attrs_of [("type", kind); ("id", id)])
    (Tag "name" (attrs_of [("type", "primary"); ("value", primary)]) [] :: more).

Definition search_item (kind id : string) : PageElement :=
  Tag "item" (attrs_of [("type", kind); ("id", id)]) [].

Definition designer (who : string) : PageElement :=
  Tag "link" (attrs_of [("type", "rpgdesigner"); ("value", who)]) [].

Definition series_link (s : string) : PageElement :=
  Tag "link" (attrs_of [("type", "rpgseries"); ("value", s)]) [].

Definition seriescode (code : string) : PageElement :=
  Tag "seriescode" (attrs_of [("value", code)]) [].

Definition yearpublished (y : string) : PageElement :=
  Tag "yearpublished" (attrs_of [("value", y)]) [].

(** A remote given by a table from URL to what the parser makes of the
    response: a URL outside the table cannot be fetched, a [Raise] entry is
    a response the parser rejects.  Titles are single words, the clean-up
    pass is the identity, the URL validators accept. *)
Definition assoc {A} (k : string) (kvs : list (string * A)) : option A :=
  snd <$> List.find (λ kv, bool_decide (kv.1 = k)) kvs.

Definition table_host (pages : list (string * Result PageElement)) : Host := {|
  open_novisit url :=
    match assoc url pages with
    | Some _ => Ok url
    | None => Raise (HostError "unreachable")
    end;
  BeautifulSoup response :=
    match assoc response pages with
    | Some r => r
    | None => Raise (HostError "no document")
    end;
  get_title_tokens title := match title with Some t => [t] | None => [] end;
  clean_downloaded_metadata m := m;
  bracketed_host_valid _ := true;
  nfkc_netloc_valid _ := true;
|}.

Definition thing_url (id : string) : string := _API_THING_URL +:+ id.
Definition search_url (tokens : list string) : string :=
  _API_SEARCH_URL +:+ join "+" tokens.

Definition world0 : World := {| result_queue := []; opened := [] |}.

(** Three candidates A, B, C, each with a detail page the plugin accepts. *)
Definition abc_host : Host := table_host [
  (search_url ["catan"],
   Ok (document [search_item "rpgitem" "A"; search_item "boardgame" "Z";
                 search_item "rpgitem" "B"; search_item "rpgitem" "C"]));
  (thing_url "A",
   Ok (document [thing_item "boardgameexpansion" "A" "Alpha"
                   [designer "Ann"; designer "Bob"; yearpublished "1995";
                    series_link "Saga"; seriescode "ABC-042b"]]));
  (thing_url "B", Ok (document [thing_item "boardgameexpansion" "B" "Beta" []]));
  (thing_url "C", Ok (document [thing_item "boardgameexpansion" "C" "Gamma" []]))
].

(** The same search, but A's detail page cannot be fetched. *)
Definition a_down_host : Host := table_host [
  (search_url ["catan"],
   Ok (document [search_item "rpgitem" "A"; search_item "rpgitem" "B"]));
  (thing_url "B", Ok (document [thing_item "boardgameexpansion" "B" "Beta" []]))
].

(** The same search, but A's detail response does not parse. *)
Definition a_garbled_host : Host := table_host [
  (search_url ["catan"],
   Ok (document [search_item "rpgitem" "A"; search_item "rpgitem" "B"]));
  (thing_url "A", Raise (HostError "parser"));
  (thing_url "B", Ok (document [thing_item "boardgameexpansion" "B" "Beta" []]))
].

(** A remote that answers the search of one kind with detail pages of the
    very same kind. *)
Definition same_kind_host : Host := table_host [
  (search_url ["catan"], Ok (document [search_item "rpgitem" "1"]));
  (thing_url "1", Ok (document [thing_item "rpgitem" "1" "Catan" [designer "Ann"]]))
].

(** Detail pages with an empty primary name, and with no primary name. *)
Definition untitled_host : Host := table_host [
  (thing_url "7", Ok (document [thing_item "boardgameexpansion" "7" "" []]));
  (thing_url "8",
   Ok (document [Tag "item" (attrs_of [("type", "boardgameexpansion")]) []]))
].

(** A remote that answers the search without tokens with one candidate. *)
Definition eager_host : Host := table_host [
  (search_url [], Ok (document [search_item "rpgitem" "A"]));
  (thing_url "A", Ok (document [thing_item "boardgameexpansion" "A" "Alpha" []]))
].

(** A remote that is down. *)
Definition down_host : Host := table_host [].

(** ** Vocabulary of the statements *)





(** The segments of a URL path: what is between its slashes, the leading
    and trailing ones dropped. *)
Definition path_segments (path : string) : list string :=
  map str (split "/" (strip (is_char "/") (chars path))).

Definition catalog_domains : list string :=
  ["rpggeek.com"; "boardgamegeek.com"; "videogamegeek.com"].

(** [d] added at the end of [w]: the records and requests of [d] follow
    those of [w]. *)
Definition append_world (w d : World) : World :=
  {| result_queue := result_queue w ++ result_queue d;
     opened := opened w ++ opened d |}.

(** A computation that only adds to the world, the same way from wherever
    it starts. *)
Definition framed {A} (m : M A) : Prop :=
  ∀ w, m w = ((m world0).1, append_world w (m world0).2).

(** The detail lookup of the candidate [item] found at position [i] of a
    search response, run on its own. *)
Definition candidate_lookup `{Host} (i : nat) (item : PageElement)
  : Result unit * World :=
  (id ← lift (getitem item "id"); _get_metadata_from_thing_api id (Z.of_nat i))
    world0.

(** The map holds no usable identifier of the plugin: none at all, or the
    empty string. *)
Definition no_bggeek_id (ids : option (gmap string string)) : Prop :=
  ∀ id, default ∅ ids !! _ID_TYPE = Some id → id = "".

Definition sample_record (t : string) (rank : Z) : Metadata :=
  {| title := t; authors := []; identifiers := ∅; pubdate := None;
     publisher := None; series := ""; comments := None; series_index := 0;
     source := name; source_relevance := rank |}.

(** ** Vocabulary of the further properties *)

(** [tag] is the first element of [soup], in document order, that passes the
    filter of [find]. *)
Definition first_match (soup : PageElement) (name : string)
    (type_ : option string) (tag : PageElement) : Prop :=
  ∃ before after,
    descendants soup = before ++ tag :: after
    ∧ Forall (λ e, matches name type_ e = false) before
    ∧ matches name type_ tag = true.

(** No element of [soup] passes the filter. *)
Definition no_match (soup : PageElement) (name : string)
    (type_ : option string) : Prop :=
  Forall (λ e, matches name type_ e = false) (descendants soup).

(** [tag["value"]] as an optional result. *)
Definition value_or_KeyError (tag : PageElement) : Result (option string) :=
  match tag_attrs tag !! "value" with
  | Some v => Ok (Some v)
  | None => Raise (KeyError "value")
  end.

(** An identifier that a URL path can carry as one segment unchanged: not
    empty, and free of the characters that end a path or a segment and of
    those [urlparse] removes. *)
Definition plain_id (id : string) : Prop :=
  id ≠ ""
  ∧ forallb (λ c, negb (bool_decide
                          (c ∈ chars "/?#;" ++ ["009"; "013"; "010"]%char)))
      (chars id) = true.

(** A remote whose search response holds items of other kinds only. *)
Definition other_kinds_host : Host := table_host [
  (search_url ["catan"],
   Ok (document [search_item "boardgame" "13"; search_item "boardgameexpansion" "926"]))
].

(** * Properties *)

(** ** Relevance ordering *)

Lemma keygen_relevance title authors identifiers m :
  _KeyGen.relevance (identify_results_keygen title authors identifiers m)
  = source_relevance m.
Proof. reflexivity. Qed.

(** C9: the keys made by [identify_results_keygen] are compared by the
    relevance rank alone.  [__lt__] is the strict order of the ranks and
    [__eq__] their equality; the other four operators agree with these two;
    of two keys exactly one is below, equal to or above the other; [__lt__]
    is transitive, [__eq__] is reflexive, symmetric and transitive; and two
    records of equal rank have the same key, whatever their other fields. *)
Theorem keygen_total_order title authors identifiers :
  let key := identify_results_keygen title authors identifiers in
  ∀ a b c : Metadata,
    (_KeyGen.__lt__ (key a) (key b) = true ↔ source_relevance a < source_relevance b)
    ∧ (_KeyGen.__eq__ (key a) (key b) = true ↔ source_relevance a = source_relevance b)
    ∧ _KeyGen.__ne__ (key a) (key b) = negb (_KeyGen.__eq__ (key a) (key b))
    ∧ _KeyGen.__le__ (key a) (key b)
      = _KeyGen.__lt__ (key a) (key b) || _KeyGen.__eq__ (key a) (key b)
    ∧ _KeyGen.__gt__ (key a) (key b) = _KeyGen.__lt__ (key b) (key a)
    ∧ _KeyGen.__ge__ (key a) (key b) = _KeyGen.__le__ (key b) (key a)
    ∧ (_KeyGen.__lt__ (key a) (key b) = true ∧ _KeyGen.__eq__ (key a) (key b) = false
         ∧ _KeyGen.__gt__ (key a) (key b) = false
       ∨ _KeyGen.__lt__ (key a) (key b) = false ∧ _KeyGen.__eq__ (key a) (key b) = true
         ∧ _KeyGen.__gt__ (key a) (key b) = false
       ∨ _KeyGen.__lt__ (key a) (key b) = false ∧ _KeyGen.__eq__ (key a) (key b) = false
         ∧ _KeyGen.__gt__ (key a) (key b) = true)
    ∧ (_KeyGen.__lt__ (key a) (key b) = true → _KeyGen.__lt__ (key b) (key c) = true →
       _KeyGen.__lt__ (key a) (key c) = true)
    ∧ _KeyGen.__eq__ (key a) (key a) = true
    ∧ (_KeyGen.__eq__ (key a) (key b) = true → _KeyGen.__eq__ (key b) (key a) = true)
    ∧ (_KeyGen.__eq__ (key a) (key b) = true → _KeyGen.__eq__ (key b) (key c) = true →
       _KeyGen.__eq__ (key a) (key c) = true)
    ∧ (source_relevance a = source_relevance b → key a = key b).
Proof.
  intros key a b c.
  unfold _KeyGen.__lt__, _KeyGen.__eq__, _KeyGen.__ne__, _KeyGen.__le__,
    _KeyGen.__gt__, _KeyGen.__ge__.
  subst key. rewrite !keygen_relevance.
  set (x := source_relevance a). set (y := source_relevance b).
  set (z := source_relevance c).
  rewrite !Z.gtb_ltb, !Z.geb_leb.
  assert (Hkey : x = y → identify_results_keygen title authors identifiers a
                        = identify_results_keygen title authors identifiers b).
  { unfold identify_results_keygen, _KeyGen.__init__. simpl. fold x y. congruence. }
  destruct (Z.ltb_spec x y), (Z.eqb_spec x y), (Z.ltb_spec y x),
    (Z.leb_spec x y), (Z.leb_spec y x), (Z.ltb_spec y z), (Z.eqb_spec y z),
    (Z.ltb_spec x z), (Z.eqb_spec x z), (Z.eqb_spec y x), (Z.eqb_spec x x);
    simpl; try lia; intuition (try lia; try discriminate).
Qed.

Lemma keygen_total_order_witness :
  let key := identify_results_keygen None None None in
  _KeyGen.__lt__ (key (sample_record "Catan" 2)) (key (sample_record "Azul" 5)) = true
  ∧ _KeyGen.__eq__ (key (sample_record "Catan" 2)) (key (sample_record "Root" 2)) = true.
Proof.
  pose proof (keygen_total_order None None None (sample_record "Catan" 2)
                (sample_record "Azul" 5) (sample_record "Root" 2)) as Hab.
  pose proof (keygen_total_order None None None (sample_record "Catan" 2)
                (sample_record "Root" 2) (sample_record "Azul" 5)) as Hac.
  simpl in Hab, Hac. split.
  - apply (proj1 Hab). simpl. lia.
  - apply (proj1 (proj2 Hac)). reflexivity.
Defined.

(** ** The series-code pattern *)












(** ** [int] on a run of digits *)

Lemma lstrip_keep p c s : p c = false → lstrip p (c :: s) = c :: s.
Proof. intros Hc. cbn. by rewrite Hc. Qed.








(** ** Field extractors *)








(** ** Identifiers and URLs *)




(** C10: an identifier map that binds the plugin's namespace to the empty
    string behaves as the map without that binding: [get_book_url] returns
    nothing, and [identify] runs the title search. *)
Theorem empty_identifier_is_absent `{Host} (ids : gmap string string)
    (title : option string) (authors : option (list string)) (w : World) :
  ids !! _ID_TYPE = Some "" →
  get_book_url ids = None
  ∧ get_book_url ids = get_book_url (delete _ID_TYPE ids)
  ∧ identify title authors (Some ids) w = _search_title title w
  ∧ identify title authors (Some ids) w
    = identify title authors (Some (delete _ID_TYPE ids)) w.
Proof.
  intros Hid. unfold get_book_url, identify. cbn [default from_option].
  unfold id. rewrite Hid, lookup_delete_eq. cbn. done.
Qed.

Lemma empty_identifier_is_absent_witness :
  get_book_url {[ _ID_TYPE := "" ]} = None
  ∧ @identify abc_host (Some "catan") None (Some {[ _ID_TYPE := "" ]}) world0
    = @_search_title abc_host (Some "catan") world0.
Proof.
  destruct (@empty_identifier_is_absent abc_host {[ _ID_TYPE := "" ]}
              (Some "catan") None world0) as (Hurl & _ & Hsearch & _).
  - vm_compute. reflexivity.
  - split; [exact Hurl|exact Hsearch].
Defined.

(** ** Computations only add to the world *)

Lemma append_world_assoc w d d' :
  append_world (append_world w d) d' = append_world w (append_world d d').
Proof. unfold append_world. cbn. by rewrite !app_assoc. Qed.

Lemma append_world_empty_l d : append_world world0 d = d.
Proof. by destruct d. Qed.

Lemma append_world_empty_r w : append_world w world0 = w.
Proof. destruct w. unfold append_world. cbn. by rewrite !app_nil_r. Qed.

Lemma framed_ret {A} (a : A) : framed (mret a : M A).
Proof. intros w. cbn. by rewrite append_world_empty_r. Qed.

Lemma framed_lift {A} (r : Result A) : framed (lift r).
Proof. intros w. cbn. by rewrite append_world_empty_r. Qed.

Lemma framed_put m : framed (put m).
Proof. intros w. unfold put, append_world. cbn. by rewrite app_nil_r. Qed.

Lemma framed_browser_open `{Host} url : framed (browser_open url).
Proof. intros w. unfold browser_open, append_world. cbn. by rewrite app_nil_r. Qed.

Lemma framed_bind {A B} (m : M A) (f : A → M B) :
  framed m → (∀ a, framed (f a)) → framed (m ≫= f).
Proof.
  intros Hm Hf w. unfold mbind, M_bind. rewrite (Hm w).
  destruct (m world0) as [[a|e] d]; cbn [fst snd]; [|reflexivity].
  rewrite (Hf a (append_world w d)), (Hf a d). cbn [fst snd].
  by rewrite append_world_assoc.
Qed.

Lemma framed_for_each {A} (body : A → M unit) xs :
  (∀ x, framed (body x)) → framed (for_each body xs).
Proof.
  intros Hbody. induction xs as [|x xs IH]; cbn [for_each].
  - apply framed_ret.
  - apply framed_bind; [apply Hbody|intros _; exact IH].
Qed.

Lemma framed_thing_api `{Host} bggeek_id relevance :
  framed (_get_metadata_from_thing_api bggeek_id relevance).
Proof.
  unfold _get_metadata_from_thing_api.
  apply framed_bind; [apply framed_browser_open|intros response].
  apply framed_bind; [apply framed_lift|intros soup].
  destruct (negb _); [apply framed_ret|].
  repeat first
    [ apply framed_put
    | apply framed_bind; [apply framed_lift|intros ?]
    | match goal with |- framed (let '(_, _) := ?p in _) => destruct p end ].
Qed.

Lemma framed_search_body `{Host} (ix : Z * PageElement) :
  framed (let '(i, item) := ix in
          id ← lift (getitem item "id"); _get_metadata_from_thing_api id i).
Proof.
  destruct ix as [i item].
  apply framed_bind; [apply framed_lift|intros id; apply framed_thing_api].
Qed.

Lemma framed_search_title `{Host} title : framed (_search_title title).
Proof.
  unfold _search_title.
  apply framed_bind; [apply framed_browser_open|intros response].
  apply framed_bind; [apply framed_lift|intros soup].
  apply framed_for_each. intros ix. apply framed_search_body.
Qed.

(** ** One detail lookup *)

(** A lookup sends one request, to the detail URL of the identifier.  It
    pushes nothing, or it returns normally after pushing one record: the
    cleaned-up record made of the title and the authors it extracted, under
    the rank it was given. *)
Lemma thing_api_outcome `{Host} bggeek_id relevance w :
  let '(r, w') := _get_metadata_from_thing_api bggeek_id relevance w in
  opened w' = opened w ++ [thing_url bggeek_id]
  ∧ (result_queue w' = result_queue w
     ∨ r = Ok ()
       ∧ ∃ response soup m,
           open_novisit (thing_url bggeek_id) = Ok response
           ∧ BeautifulSoup response = Ok soup
           ∧ is_Some (find soup "item" (Some "boardgameexpansion"))
           ∧ getitem_opt (find soup "name" (Some "primary")) "value" = Ok (title m)
           ∧ Result_mapM (λ x, getitem x "value")
               (find_all soup "link" (Some "rpgdesigner")) = Ok (authors m)
           ∧ identifiers m = {[ _ID_TYPE := bggeek_id ]}
           ∧ source_relevance m = relevance
           ∧ result_queue w' = result_queue w ++ [clean_downloaded_metadata m]).
Proof.
  unfold _get_metadata_from_thing_api, browser_open, lift, put, thing_url.
  unfold mbind, M_bind, mret, M_ret.
  destruct (open_novisit _) as [response|e] eqn:Hopen; cbn; [|by auto].
  destruct (BeautifulSoup response) as [soup|e] eqn:Hparse; cbn; [|by auto].
  destruct (bool_decide (is_Some (find soup "item" (Some "boardgameexpansion"))))
    eqn:Hitem; cbn; [|by auto].
  apply bool_decide_eq_true in Hitem.
  destruct (getitem_opt _ "value") as [t|e] eqn:Htitle; cbn; [|by auto].
  destruct (Result_mapM _ _) as [a|e] eqn:Hauthors; cbn; [|by auto].
  destruct (_get_pub_date soup) as [pub_date|e]; cbn; [|by auto].
  destruct (_get_publisher soup) as [publisher|e]; cbn; [|by auto].
  destruct (_get_series soup) as [[series index]|e]; cbn; [|by auto].
  destruct (_get_comments soup) as [comments|e]; cbn; [|by auto].
  split; [reflexivity|]. right. split; [reflexivity|].
  eexists response, soup, _. repeat split; try eassumption; reflexivity.
Qed.

(** ** The loop over the candidates *)

Lemma for_each_app {A} (body : A → M unit) xs ys w :
  for_each body (xs ++ ys) w
  = match for_each body xs w with
    | (Ok _, w') => for_each body ys w'
    | (Raise e, w') => (Raise e, w')
    end.
Proof.
  revert w. induction xs as [|x xs IH]; intros w; [reflexivity|].
  cbn [app for_each]. unfold mbind, M_bind.
  destruct (body x w) as [[[]|e] w']; [apply IH|reflexivity].
Qed.

(** When no body raises, the loop runs through, and the world gains what
    each body adds, in order. *)
Lemma for_each_imap_ok {A B} (body : B → M unit) (ix : nat → A → B) xs w :
  (∀ p, framed (body p)) →
  (∀ i x, xs !! i = Some x → (body (ix i x) world0).1 = Ok ()) →
  for_each body (imap ix xs) w
  = (Ok (),
     {| result_queue :=
          result_queue w
          ++ concat (imap (λ i x, result_queue (body (ix i x) world0).2) xs);
        opened :=
          opened w ++ concat (imap (λ i x, opened (body (ix i x) world0).2) xs) |}).
Proof.
  intros Hframed. revert ix w. induction xs as [|x xs IH]; intros ix w Hok.
  - cbn. rewrite !app_nil_r. by destruct w.
  - cbn [imap for_each concat]. unfold mbind, M_bind.
    rewrite (Hframed (ix 0%nat x) w), (Hok 0%nat x eq_refl).
    rewrite IH by (intros i y Hy; exact (Hok (S i) y Hy)).
    cbn. by rewrite !app_assoc.
Qed.

(** The first body that raises ends the loop: the exception leaves it, and
    the world holds what the bodies up to that one added. *)
Lemma for_each_imap_raise {A B} (body : B → M unit) (ix : nat → A → B)
    before x after e w :
  (∀ p, framed (body p)) →
  (∀ i y, before !! i = Some y → (body (ix i y) world0).1 = Ok ()) →
  (body (ix (length before) x) world0).1 = Raise e →
  for_each body (imap ix (before ++ x :: after)) w
  = (Raise e,
     {| result_queue :=
          result_queue w
          ++ concat (imap (λ i y, result_queue (body (ix i y) world0).2) before)
          ++ result_queue (body (ix (length before) x) world0).2;
        opened :=
          opened w
          ++ concat (imap (λ i y, opened (body (ix i y) world0).2) before)
          ++ opened (body (ix (length before) x) world0).2 |}).
Proof.
  intros Hframed Hok Hraise.
  rewrite imap_app, for_each_app, for_each_imap_ok by done.
  cbn [imap for_each]. unfold mbind, M_bind.
  rewrite Hframed, Nat.add_0_r, Hraise. cbn. by rewrite !app_assoc.
Qed.

(** The body of the loop of [_search_title], named. *)
Lemma search_title_run `{Host} title w response soup :
  open_novisit (search_url (get_title_tokens title)) = Ok response →
  BeautifulSoup response = Ok soup →
  _search_title title w
  = for_each (λ '(i, item),
                id ← lift (getitem item "id");
                _get_metadata_from_thing_api id i)
      (imap (λ i item, (Z.of_nat i, item)) (find_all soup "item" (Some "rpgitem")))
      {| result_queue := result_queue w;
         opened := opened w ++ [search_url (get_title_tokens title)] |}.
Proof.
  intros Hopen Hparse. unfold _search_title, browser_open, lift.
  unfold mbind at 1 2, M_bind. fold (search_url (get_title_tokens title)).
  rewrite Hopen. cbn [fst snd]. rewrite Hparse. reflexivity.
Qed.

Lemma candidate_lookup_unfold `{Host} i item :
  candidate_lookup i item
  = match getitem item "id" with
    | Ok id => _get_metadata_from_thing_api id (Z.of_nat i) world0
    | Raise e => (Raise e, world0)
    end.
Proof.
  unfold candidate_lookup, lift. unfold mbind at 1, M_bind.
  by destruct (getitem item "id").
Qed.

(** A candidate lookup that returns normally read the identifier of the
    candidate, sent its one request, and pushed at most one record, ranked
    by the position of the candidate. *)
Lemma candidate_lookup_ok `{Host} i item :
  (candidate_lookup i item).1 = Ok () →
  ∃ id, getitem item "id" = Ok id
        ∧ opened (candidate_lookup i item).2 = [thing_url id]
        ∧ (result_queue (candidate_lookup i item).2 = []
           ∨ ∃ m, result_queue (candidate_lookup i item).2
                  = [clean_downloaded_metadata m]
                  ∧ source_relevance m = Z.of_nat i
                  ∧ identifiers m = {[ _ID_TYPE := id ]}).
Proof.
  rewrite candidate_lookup_unfold.
  destruct (getitem item "id") as [id|e]; cbn [fst snd]; [|discriminate].
  intros Hok. exists id. split; [reflexivity|].
  pose proof (thing_api_outcome id (Z.of_nat i) world0) as Hout.
  destruct (_get_metadata_from_thing_api id (Z.of_nat i) world0) as [r d].
  cbn in Hout |- *. destruct Hout as [Hopened Hqueue]. split; [exact Hopened|].
  destruct Hqueue as [Hq|(_ & response & soup & m & _ & _ & _ & _ & _ & ? & ? & Hq)].
  - by left.
  - right. by exists m.
Qed.

(** A candidate whose detail page cannot be fetched, or does not parse:
    the lookup raises after its one request and pushes nothing. *)
Lemma candidate_lookup_fails `{Host} i item id e :
  getitem item "id" = Ok id →
  open_novisit (thing_url id) = Raise e
  ∨ (∃ response, open_novisit (thing_url id) = Ok response
                 ∧ BeautifulSoup response = Raise e) →
  candidate_lookup i item
  = (Raise e, {| result_queue := []; opened := [thing_url id] |}).
Proof.
  intros Hid Hfail. rewrite candidate_lookup_unfold, Hid. unfold _get_metadata_from_thing_api, browser_open, lift.
  unfold mbind at 1 2, M_bind. fold (thing_url id).
  destruct Hfail as [->|(response & -> & Hparse)]; [reflexivity|].
  cbn [fst snd]. rewrite Hparse. reflexivity.
Qed.

Lemma concat_singletons {A B} (g : A → B) (l : list A) :
  concat (imap (λ _ x, [g x]) l) = map g l.
Proof.
  rewrite (imap_const (λ x, [g x])). induction l as [|x l IH]; [reflexivity|].
  cbn. by rewrite IH.
Qed.

(** What a run of candidate lookups that all return normally adds up to:
    one request per candidate, in order, and per candidate at most one
    record, ranked by the position of the candidate. *)
Lemma candidates_ok_summary `{Host} items :
  (∀ i item, items !! i = Some item → (candidate_lookup i item).1 = Ok ()) →
  ∃ ids records,
    Forall2 (λ item id, getitem item "id" = Ok id) items ids
    ∧ concat (imap (λ i item, opened (candidate_lookup i item).2) items)
      = map thing_url ids
    ∧ records = imap (λ i item, result_queue (candidate_lookup i item).2) items
    ∧ length records = length items
    ∧ ∀ i ms, records !! i = Some ms →
        ms = [] ∨ ∃ m, ms = [clean_downloaded_metadata m]
                       ∧ source_relevance m = Z.of_nat i.
Proof.
  intros Hok.
  set (id_of := λ item : PageElement, default "" (tag_attrs item !! "id")).
  assert (Hid : ∀ i item, items !! i = Some item →
                          getitem item "id" = Ok (id_of item)
                          ∧ opened (candidate_lookup i item).2
                            = [thing_url (id_of item)]).
  { intros i item Hitem.
    destruct (candidate_lookup_ok i item (Hok i item Hitem))
      as (id & Hget & Hopened & _).
    assert (id_of item = id) as ->; [|done].
    unfold getitem in Hget. unfold id_of.
    destruct (tag_attrs item !! "id"); by simplify_eq. }
  exists (map id_of items),
    (imap (λ i item, result_queue (candidate_lookup i item).2) items).
  split; [|split; [|split; [reflexivity|split]]].
  - apply Forall2_fmap_r, Forall_Forall2_diag, Forall_lookup.
    intros i item Hitem. by apply (Hid i item).
  - rewrite (imap_ext _ (λ _ item, [thing_url (id_of item)]))
      by (intros i item Hitem; by apply (Hid i item)).
    rewrite concat_singletons. by rewrite <- list_fmap_compose.
  - apply length_imap.
  - intros i ms [item [Hitem ->]]%list_lookup_imap_Some.
    destruct (candidate_lookup_ok i item (Hok i item Hitem))
      as (id & _ & _ & [Hq|(m & Hq & Hrank & _)]); [by left|].
    right. by exists m.
Qed.

Lemma identify_search_branch `{Host} title authors ids w :
  no_bggeek_id ids → identify title authors ids w = _search_title title w.
Proof.
  intros Hno. unfold identify.
  destruct (default ∅ ids !! _ID_TYPE) as [bggeek_id|] eqn:Hid; [|reflexivity].
  rewrite (Hno bggeek_id Hid). reflexivity.
Qed.



(** The title search when every candidate lookup returns normally. *)
Lemma search_title_all_ok `{Host} title w response soup :
  open_novisit (search_url (get_title_tokens title)) = Ok response →
  BeautifulSoup response = Ok soup →
  (∀ i item, find_all soup "item" (Some "rpgitem") !! i = Some item →
             (candidate_lookup i item).1 = Ok ()) →
  ∃ ids records,
    Forall2 (λ item id, getitem item "id" = Ok id)
      (find_all soup "item" (Some "rpgitem")) ids
    ∧ _search_title title w
      = (Ok (),
         {| result_queue := result_queue w ++ concat records;
            opened := opened w ++ search_url (get_title_tokens title)
                                  :: map thing_url ids |})
    ∧ length records = length (find_all soup "item" (Some "rpgitem"))
    ∧ ∀ i ms, records !! i = Some ms →
        ms = [] ∨ ∃ m, ms = [clean_downloaded_metadata m]
                       ∧ source_relevance m = Z.of_nat i.
Proof.
  intros Hopen Hparse Hok.
  destruct (candidates_ok_summary _ Hok) as (ids & records & Hids & Hopened & Hrec & Hlen & Hranks).
  exists ids, records. split; [exact Hids|]. split; [|by split].
  rewrite (search_title_run _ _ _ _ Hopen Hparse).
  rewrite for_each_imap_ok; [|apply framed_search_body|exact Hok].
  cbn [result_queue opened]. f_equal. f_equal.
  - by rewrite Hrec.
  - rewrite <- app_assoc. cbn [app]. by rewrite <- Hopened.
Qed.



(** The loop of [_search_title] when a candidate lookup raises. *)
Lemma search_loop_raise `{Host} before item after e w :
  (∀ i c, before !! i = Some c → (candidate_lookup i c).1 = Ok ()) →
  (candidate_lookup (length before) item).1 = Raise e →
  for_each (λ '(i, item),
              id ← lift (getitem item "id");
              _get_metadata_from_thing_api id i)
    (imap (λ i item, (Z.of_nat i, item)) (before ++ item :: after)) w
  = (Raise e,
     {| result_queue :=
          result_queue w
          ++ concat (imap (λ i c, result_queue (candidate_lookup i c).2) before)
          ++ result_queue (candidate_lookup (length before) item).2;
        opened :=
          opened w
          ++ concat (imap (λ i c, opened (candidate_lookup i c).2) before)
          ++ opened (candidate_lookup (length before) item).2 |}).
Proof.
  intros Hok Hraise.
  apply (for_each_imap_raise
           (λ '(i, item),
              id ← lift (getitem item "id");
              _get_metadata_from_thing_api id i)
           (λ i item, (Z.of_nat i, item)));
    [apply framed_search_body|exact Hok|exact Hraise].
Qed.


(** C1 (amended): in a title search, when the detail page of a candidate
    cannot be fetched or does not parse, the exception leaves [identify].
    The candidates before it were looked up and what they pushed stays in
    the queue; the failing candidate pushes nothing; the candidates after it
    are not looked up: the last request sent is the failing one. *)
Theorem lookup_failure_ends_identify `{Host} (title : option string)
    (authors : option (list string)) (ids : option (gmap string string))
    (w : World) (response : string) (soup : PageElement)
    (before after : list PageElement) (item : PageElement) (id : string)
    (e : Exception) :
  no_bggeek_id ids →
  open_novisit (search_url (get_title_tokens title)) = Ok response →
  BeautifulSoup response = Ok soup →
  find_all soup "item" (Some "rpgitem") = before ++ item :: after →
  (∀ i c, before !! i = Some c → (candidate_lookup i c).1 = Ok ()) →
  getitem item "id" = Ok id →
  open_novisit (thing_url id) = Raise e
  ∨ (∃ page, open_novisit (thing_url id) = Ok page
             ∧ BeautifulSoup page = Raise e) →
  ∃ ids_before records,
    Forall2 (λ c cid, getitem c "id" = Ok cid) before ids_before
    ∧ identify title authors ids w
      = (Raise e,
         {| result_queue := result_queue w ++ concat records;
            opened := opened w ++ search_url (get_title_tokens title)
                                  :: map thing_url (ids_before ++ [id]) |})
    ∧ length records = length before
    ∧ ∀ i ms, records !! i = Some ms →
        ms = [] ∨ ∃ m, ms = [clean_downloaded_metadata m]
                       ∧ source_relevance m = Z.of_nat i.
Proof.
  intros Hno Hopen Hparse Hitems Hok Hid Hfail.
  destruct (candidates_ok_summary _ Hok)
    as (cids & records & Hids & Hopened & Hrec & Hlen & Hranks).
  exists cids, records. split; [exact Hids|]. split; [|by split].
  rewrite (identify_search_branch _ _ _ _ Hno).
  rewrite (search_title_run _ _ _ _ Hopen Hparse), Hitems.
  pose proof (candidate_lookup_fails (length before) item id e Hid Hfail)
    as Hraise.
  rewrite (search_loop_raise before item after e) by (done || by rewrite Hraise).
  rewrite Hraise. cbn [result_queue opened snd]. f_equal. f_equal.
  - rewrite app_nil_r. by rewrite Hrec.
  - rewrite <- app_assoc. cbn [app]. rewrite map_app. cbn [map].
    by rewrite <- Hopened.
Qed.

Lemma lookup_failure_ends_identify_witness :
  @identify a_down_host (Some "catan") None None world0
  = (Raise (HostError "unreachable"),
     {| result_queue := [];
        opened := [search_url ["catan"]; thing_url "A"] |}).
Proof.
  destruct (@lookup_failure_ends_identify a_down_host (Some "catan") None None
              world0 (search_url ["catan"])
              (document [search_item "rpgitem" "A"; search_item "rpgitem" "B"])
              [] [search_item "rpgitem" "B"] (search_item "rpgitem" "A") "A"
              (HostError "unreachable"))
    as (ids_before & records & Hids & Hrun & Hlen & _).
  - intros id Hid. discriminate Hid.
  - reflexivity.
  - reflexivity.
  - reflexivity.
  - intros i c Hc. discriminate Hc.
  - reflexivity.
  - left. reflexivity.
  - inversion Hids. subst ids_before.
    destruct records; [|discriminate Hlen]. exact Hrun.
Defined.

(** C1, as stated, fails: with candidates A and B, a detail page of A that
    cannot be fetched, or that does not parse, makes [identify] raise.  B is
    never looked up, although its lookup would have pushed a record. *)
Lemma lookup_failure_skips_siblings :
  @identify a_down_host (Some "catan") None None world0
  = (Raise (HostError "unreachable"),
     {| result_queue := [];
        opened := [search_url ["catan"]; thing_url "A"] |})
  ∧ @identify a_garbled_host (Some "catan") None None world0
    = (Raise (HostError "parser"),
       {| result_queue := [];
          opened := [search_url ["catan"]; thing_url "A"] |})
  ∧ (@_get_metadata_from_thing_api a_down_host "B" 1 world0).1 = Ok ()
  ∧ map title
      (result_queue (@_get_metadata_from_thing_api a_down_host "B" 1 world0).2)
    = ["Beta"].
Proof. repeat split; vm_compute; reflexivity. Qed.

(** ** What a detail lookup emits *)

(** C2 (amended): a detail lookup pushes nothing, or it pushes exactly one
    record and returns normally; the record is the cleaned-up record made of
    the title and the authors it extracted: the value of the primary-name
    element, whatever it is, and the values of the designer links.  A
    response without an item of the expected kind pushes nothing and raises
    nothing; one with such an item but without a primary-name element pushes
    nothing because the lookup raises [TypeError]. *)
Theorem thing_api_emits `{Host} (bggeek_id : string) (relevance : Z) (w : World) :
  (result_queue (_get_metadata_from_thing_api bggeek_id relevance w).2
   = result_queue w
   ∨ (_get_metadata_from_thing_api bggeek_id relevance w).1 = Ok ()
     ∧ ∃ response soup m,
         open_novisit (thing_url bggeek_id) = Ok response
         ∧ BeautifulSoup response = Ok soup
         ∧ getitem_opt (find soup "name" (Some "primary")) "value" = Ok (title m)
         ∧ Result_mapM (λ x, getitem x "value")
             (find_all soup "link" (Some "rpgdesigner")) = Ok (authors m)
         ∧ result_queue (_get_metadata_from_thing_api bggeek_id relevance w).2
           = result_queue w ++ [clean_downloaded_metadata m])
  ∧ (∀ response soup,
       open_novisit (thing_url bggeek_id) = Ok response →
       BeautifulSoup response = Ok soup →
       (find soup "item" (Some "boardgameexpansion") = None →
        _get_metadata_from_thing_api bggeek_id relevance w
        = (Ok (), {| result_queue := result_queue w;
                     opened := opened w ++ [thing_url bggeek_id] |}))
       ∧ (is_Some (find soup "item" (Some "boardgameexpansion")) →
          find soup "name" (Some "primary") = None →
          _get_metadata_from_thing_api bggeek_id relevance w
          = (Raise TypeError,
             {| result_queue := result_queue w;
                opened := opened w ++ [thing_url bggeek_id] |}))).
Proof.
  split.
  - pose proof (thing_api_outcome bggeek_id relevance w) as Hout.
    destruct (_get_metadata_from_thing_api bggeek_id relevance w) as [r w'].
    cbn [fst snd]. destruct Hout as [_ [Hq|(Hr & response & soup & m & Hout)]].
    + by left.
    + right. split; [exact Hr|]. exists response, soup, m.
      destruct Hout as (? & ? & _ & ? & ? & _ & _ & ?). done.
  - intros response soup Hopen Hparse.
    unfold _get_metadata_from_thing_api, browser_open, lift, put.
    unfold mbind, M_bind, mret, M_ret. fold (thing_url bggeek_id).
    rewrite Hopen, Hparse. split.
    + intros ->. rewrite bool_decide_eq_false_2 by (by intros []).
      reflexivity.
    + intros Hitem Hname. rewrite bool_decide_eq_true_2 by done.
      rewrite Hname. reflexivity.
Qed.

Lemma thing_api_emits_witness :
  @_get_metadata_from_thing_api same_kind_host "1" 0 world0
  = (Ok (), {| result_queue := []; opened := [thing_url "1"] |})
  ∧ @_get_metadata_from_thing_api untitled_host "8" 0 world0
    = (Raise TypeError, {| result_queue := []; opened := [thing_url "8"] |}).
Proof.
  split.
  - refine (proj1 (proj2 (@thing_api_emits same_kind_host "1" 0 world0)
                     (thing_url "1")
                     (document [thing_item "rpgitem" "1" "Catan" [designer "Ann"]])
                     _ _) _); reflexivity.
  - refine (proj2 (proj2 (@thing_api_emits untitled_host "8" 0 world0)
                     (thing_url "8")
                     (document [Tag "item"
                                  (attrs_of [("type", "boardgameexpansion")]) []])
                     _ _) _ _); [reflexivity|reflexivity|by eexists|reflexivity].
Defined.

(** C2, as stated, fails: a record whose extracted title is the empty string
    is pushed, and a response without a primary name is answered by an
    exception. *)
Lemma untitled_record_is_emitted :
  (@_get_metadata_from_thing_api untitled_host "7" 0 world0).1 = Ok ()
  ∧ map title
      (result_queue (@_get_metadata_from_thing_api untitled_host "7" 0 world0).2)
    = [""]
  ∧ (@_get_metadata_from_thing_api untitled_host "8" 0 world0).1
    = Raise TypeError.
Proof. repeat split; vm_compute; reflexivity. Qed.

(** C3: the kind of item the search selects its candidates by and the kind
    a detail response must carry are two different kinds, [rpgitem] and
    [boardgameexpansion].  No element passes both filters, and a remote that
    answers a candidate of the search with a detail page of that very
    candidate's kind gets every result of the title search dropped. *)
Theorem search_and_detail_kinds_differ :
  (∀ e : PageElement,
     matches "item" (Some "rpgitem") e = true →
     matches "item" (Some "boardgameexpansion") e = false)
  ∧ @identify same_kind_host (Some "catan") None None world0
    = (Ok (), {| result_queue := [];
                 opened := [search_url ["catan"]; thing_url "1"] |}).
Proof.
  split; [|vm_compute; reflexivity].
  intros [n a cs|t]; [|discriminate]. cbn [matches].
  destruct (bool_decide (n = "item")); [|discriminate]. cbn [andb].
  intros Hkind%bool_decide_eq_true. rewrite Hkind.
  by apply bool_decide_eq_false_2.
Qed.

Lemma search_and_detail_kinds_differ_witness :
  matches "item" (Some "boardgameexpansion") (search_item "rpgitem" "1") = false.
Proof.
  apply (proj1 search_and_detail_kinds_differ). vm_compute. reflexivity.
Defined.

(** ** No identifier and no title *)

(** C4 (amended): called with no identifier of the plugin and no title,
    [identify] runs the title search on the absent title: it sends one
    search request, made of the tokens the host derives from no title.  When
    the response holds no candidate, the call returns normally and pushes
    nothing; when the request fails, the call raises. *)
Theorem identify_without_title `{Host} (authors : option (list string))
    (ids : option (gmap string string)) (w : World) :
  no_bggeek_id ids →
  identify None authors ids w = _search_title None w
  ∧ (∃ more, opened (identify None authors ids w).2
             = opened w ++ search_url (get_title_tokens None) :: more)
  ∧ (∀ response soup,
       open_novisit (search_url (get_title_tokens None)) = Ok response →
       BeautifulSoup response = Ok soup →
       find_all soup "item" (Some "rpgitem") = [] →
       identify None authors ids w
       = (Ok (), {| result_queue := result_queue w;
                    opened := opened w ++ [search_url (get_title_tokens None)] |}))
  ∧ (∀ e, open_novisit (search_url (get_title_tokens None)) = Raise e →
          identify None authors ids w
          = (Raise e,
             {| result_queue := result_queue w;
                opened := opened w ++ [search_url (get_title_tokens None)] |})).
Proof.
  intros Hno. rewrite (identify_search_branch _ _ _ _ Hno).
  split; [reflexivity|]. split; [|split].
  - set (rest := λ response : string,
        soup ← lift (BeautifulSoup response);
        for_each (λ '(i, item),
                    id ← lift (getitem item "id");
                    _get_metadata_from_thing_api id i)
          (enumerate (find_all soup "item" (Some "rpgitem")))).
    assert (Hrest : ∀ response, framed (rest response)).
    { intros response. apply framed_bind; [apply framed_lift|intros soup].
      apply framed_for_each. intros ix. apply framed_search_body. }
    assert (Hrun : _search_title None w
                   = match open_novisit (search_url (get_title_tokens None)) with
                     | Ok response =>
                         rest response
                           {| result_queue := result_queue w;
                              opened := opened w
                                        ++ [search_url (get_title_tokens None)] |}
                     | Raise e =>
                         (Raise e,
                          {| result_queue := result_queue w;
                             opened := opened w
                                       ++ [search_url (get_title_tokens None)] |})
                     end).
    { unfold _search_title, browser_open. unfold mbind at 1, M_bind.
      fold (search_url (get_title_tokens None)).
      by destruct (open_novisit (search_url (get_title_tokens None))). }
    rewrite Hrun.
    destruct (open_novisit (search_url (get_title_tokens None))) as [response|e].
    + rewrite (Hrest response). cbn [snd append_world opened].
      rewrite <- app_assoc. eexists. reflexivity.
    + cbn. eexists. reflexivity.
  - intros response soup Hopen Hparse Hnone.
    rewrite (search_title_run _ _ _ _ Hopen Hparse), Hnone. reflexivity.
  - intros e Hopen. unfold _search_title, browser_open.
    unfold mbind at 1, M_bind. fold (search_url (get_title_tokens None)).
    rewrite Hopen. reflexivity.
Qed.

Lemma identify_without_title_witness :
  @identify down_host None None None world0
  = (Raise (HostError "unreachable"),
     {| result_queue := []; opened := [_API_SEARCH_URL] |}).
Proof.
  refine (proj2 (proj2 (proj2 (@identify_without_title down_host None None
                                 world0 _)))
            (HostError "unreachable") _).
  - intros id Hid. discriminate Hid.
  - reflexivity.
Defined.

(** C4, as stated, fails: the search without a title is sent all the same;
    a remote that answers it with a candidate gets a record pushed, and a
    remote that is down makes the call raise. *)
Lemma identify_without_title_can_push :
  (@identify eager_host None None None world0).1 = Ok ()
  ∧ map title (result_queue (@identify eager_host None None None world0).2)
    = ["Alpha"]
  ∧ opened (@identify eager_host None None None world0).2
    = [_API_SEARCH_URL; thing_url "A"]
  ∧ (@identify down_host None None None world0).1
    = Raise (HostError "unreachable").
Proof. repeat split; vm_compute; reflexivity. Qed.

(** * Further properties *)

(** ** First match wins *)

Lemma find_first_match soup name type_ tag :
  first_match soup name type_ tag → find soup name type_ = Some tag.
Proof.
  intros (before & after & Hdesc & Hbefore & Htag).
  unfold find, find_all. rewrite Hdesc. clear Hdesc.
  induction Hbefore as [|e before He _ IH]; cbn.
  - by rewrite Htag.
  - by rewrite He.
Qed.

Lemma find_no_match soup name type_ :
  no_match soup name type_ → find soup name type_ = None.
Proof.
  unfold no_match, find, find_all.
  induction 1 as [|e l He _ IH]; [reflexivity|]. cbn. by rewrite He.
Qed.

Lemma first_match_of_find soup name type_ tag :
  find soup name type_ = Some tag → first_match soup name type_ tag.
Proof.
  unfold find, find_all, first_match.
  induction (descendants soup) as [|e l IH]; [discriminate|]. cbn.
  destruct (matches name type_ e) eqn:He.
  - intros [= <-]. exists [], l. by repeat split.
  - intros (before & after & -> & Hb & Ht)%IH.
    exists (e :: before), after. repeat split; [|done]. by constructor.
Qed.

(** Every search of the tree ends in one of the two ways. *)
Lemma first_match_or_none soup name type_ :
  no_match soup name type_ ∨ ∃ tag, first_match soup name type_ tag.
Proof.
  unfold no_match, first_match.
  induction (descendants soup) as [|e l IH]; [by left|].
  destruct (matches name type_ e) eqn:He.
  - right. exists e, [], l. by repeat split.
  - destruct IH as [IH|(tag & before & after & -> & Hb & Ht)].
    + left. by constructor.
    + right. exists tag, (e :: before), after. repeat split; [|done].
      by constructor.
Qed.

(** [_get_publisher] reads the first publisher link of the record, in
    document order, and nothing after it: it returns the value of that link,
    raises [KeyError] when that link has no value, whatever the later links
    hold, and returns nothing when the record has no publisher link. *)
Theorem get_publisher_first_of_many (soup : PageElement) :
  (∀ tag, first_match soup "link" (Some "rpgpublisher") tag →
          _get_publisher soup = value_or_KeyError tag)
  ∧ (no_match soup "link" (Some "rpgpublisher") → _get_publisher soup = Ok None).
Proof.
  unfold _get_publisher, value_or_KeyError, getitem. split.
  - intros tag Htag. rewrite (find_first_match _ _ _ _ Htag).
    by destruct (tag_attrs tag !! "value").
  - intros Hnone. by rewrite (find_no_match _ _ _ Hnone).
Qed.

Lemma get_publisher_first_of_many_witness :
  _get_publisher
    (document [thing_item "boardgameexpansion" "A" "Alpha"
                 [designer "Ann";
                  Tag "link" (attrs_of [("type", "rpgpublisher"); ("value", "Kosmos")]) [];
                  Tag "link" (attrs_of [("type", "rpgpublisher")]) []]])
  = Ok (Some "Kosmos").
Proof.
  apply (proj1 (get_publisher_first_of_many _)
           (Tag "link" (attrs_of [("type", "rpgpublisher"); ("value", "Kosmos")]) [])).
  apply first_match_of_find. vm_compute. reflexivity.
Defined.

(** [_get_cover] reads the first image element of the record in the same
    way: its value, [KeyError] when it has none, nothing when the record has
    no image element. *)
Theorem get_cover_first_of_many (soup : PageElement) :
  (∀ tag, first_match soup "image" None tag →
          _get_cover soup = value_or_KeyError tag)
  ∧ (no_match soup "image" None → _get_cover soup = Ok None).
Proof.
  unfold _get_cover, value_or_KeyError, getitem. split.
  - intros tag Htag. rewrite (find_first_match _ _ _ _ Htag).
    by destruct (tag_attrs tag !! "value").
  - intros Hnone. by rewrite (find_no_match _ _ _ Hnone).
Qed.

Lemma get_cover_first_of_many_witness :
  _get_cover
    (document [thing_item "boardgameexpansion" "A" "Alpha"
                 [Tag "image" ∅ [NavigableString "https://example.org/a.jpg"]]])
  = Raise (KeyError "value").
Proof.
  rewrite (proj1 (get_cover_first_of_many _)
             (Tag "image" ∅ [NavigableString "https://example.org/a.jpg"])).
  - reflexivity.
  - apply first_match_of_find. vm_compute. reflexivity.
Defined.

Lemma get_comments_ok soup : ∃ r, _get_comments soup = Ok r.
Proof.
  unfold _get_comments. destruct (find soup "description" None); eexists;
    reflexivity.
Qed.

(** [_get_comments] never raises.  It returns the first child of the first
    description element, and nothing when that element has no children or
    when the record has no description element. *)
Theorem get_comments_total (soup : PageElement) :
  (∃ r, _get_comments soup = Ok r)
  ∧ (∀ tag, first_match soup "description" None tag →
            _get_comments soup = Ok (head (tag_contents tag)))
  ∧ (no_match soup "description" None → _get_comments soup = Ok None).
Proof.
  split; [apply get_comments_ok|]. unfold _get_comments. split.
  - intros tag Htag. by rewrite (find_first_match _ _ _ _ Htag).
  - intros Hnone. by rewrite (find_no_match _ _ _ Hnone).
Qed.

Lemma get_comments_total_witness :
  _get_comments
    (document [thing_item "boardgameexpansion" "A" "Alpha"
                 [Tag "description" ∅ []; Tag "description" ∅ [NavigableString "x"]]])
  = Ok None.
Proof.
  apply (proj1 (proj2 (get_comments_total _)) (Tag "description" ∅ [])).
  apply first_match_of_find. vm_compute. reflexivity.
Defined.

(** ** What the extractors return and raise *)












(** ** Identifiers and URLs, there and back *)

(** [get_book_url] answers exactly for a map that binds the plugin's
    namespace to a non-empty identifier, with the browsing URL of that
    identifier; the bindings of other namespaces play no part. *)
Theorem get_book_url_spec (ids : gmap string string) :
  (∀ r, get_book_url ids = Some r
        ↔ ∃ id, ids !! _ID_TYPE = Some id ∧ id ≠ ""
                ∧ r = (_ID_TYPE, id, "https://boardgamegeek.com/boardgame/" +:+ id))
  ∧ (∀ k v, k ≠ _ID_TYPE → get_book_url (<[k := v]> ids) = get_book_url ids)
  ∧ (∀ k, k ≠ _ID_TYPE → get_book_url (delete k ids) = get_book_url ids).
Proof.
  unfold get_book_url, truthy. split; [|split].
  - intros r. destruct (ids !! _ID_TYPE) as [id|].
    + destruct (decide (id = "")) as [->|Hne].
      * rewrite bool_decide_eq_true_2 by done. cbn. split; [discriminate|].
        by intros (id & [= <-] & Hne & _).
      * rewrite bool_decide_eq_false_2 by done. cbn. split.
        -- intros [= <-]. by exists id.
        -- by intros (id' & [= <-] & _ & ->).
    + split; [discriminate|]. by intros (id & Hid & _).
  - intros k v Hk. by rewrite lookup_insert_ne.
  - intros k Hk. by rewrite lookup_delete_ne.
Qed.

Lemma get_book_url_spec_witness :
  get_book_url (<["isbn" := "9780000000000"]> {[ _ID_TYPE := "4098" ]})
  = Some (_ID_TYPE, "4098", "https://boardgamegeek.com/boardgame/4098").
Proof.
  rewrite (proj1 (proj2 (get_book_url_spec {[ _ID_TYPE := "4098" ]})))
    by discriminate.
  apply (proj1 (get_book_url_spec {[ _ID_TYPE := "4098" ]})).
  exists "4098". split; [reflexivity|]. split; [discriminate|reflexivity].
Defined.

Lemma chars_append s t : chars (s +:+ t) = chars s ++ chars t.
Proof. induction s as [|c s IH]; [reflexivity|]. cbn. rewrite <- IH. reflexivity. Qed.

Lemma break_at_miss p l :
  forallb (λ c, negb (p c)) l = true → break_at p l = (l, []).
Proof.
  induction l as [|c l IH]; [reflexivity|]. cbn.
  intros [Hc Hl]%andb_true_iff. apply negb_true_iff in Hc. rewrite Hc.
  by rewrite (IH Hl).
Qed.

Lemma existsb_miss p (l : list ascii) :
  forallb (λ c, negb (p c)) l = true → existsb p l = false.
Proof.
  induction l as [|c l IH]; [reflexivity|]. cbn.
  intros [Hc Hl]%andb_true_iff. apply negb_true_iff in Hc. rewrite Hc.
  by apply IH.
Qed.

Lemma filter_keep {A} (p : A → bool) l :
  forallb p l = true → List.filter p l = l.
Proof.
  induction l as [|c l IH]; [reflexivity|]. cbn.
  intros [Hc Hl]%andb_true_iff. rewrite Hc. by rewrite (IH Hl).
Qed.

Lemma split_miss sep l :
  forallb (λ c, negb (is_char sep c)) l = true → split sep l = [l].
Proof.
  induction l as [|c l IH]; [reflexivity|]. cbn.
  intros [Hc Hl]%andb_true_iff. apply negb_true_iff in Hc.
  unfold is_char in Hc. rewrite Hc. by rewrite (IH Hl).
Qed.

Lemma forallb_weaken {A} (p q : A → bool) l :
  (∀ x, p x = true → q x = true) → forallb p l = true → forallb q l = true.
Proof.
  intros Hpq. induction l as [|c l IH]; [reflexivity|]. cbn.
  intros [Hc Hl]%andb_true_iff. by rewrite (Hpq c Hc), (IH Hl).
Qed.

Lemma rstrip_keep p l c : p c = false → rstrip p (l ++ [c]) = l ++ [c].
Proof.
  intros Hc. unfold rstrip. rewrite rev_app_distr. cbn [rev app].
  rewrite lstrip_keep by done. cbn [rev]. by rewrite rev_involutive.
Qed.

Lemma lstrip_app_keep p l1 l2 :
  match l1 with c :: _ => p c = false | [] => False end →
  lstrip p (l1 ++ l2) = l1 ++ l2.
Proof. destruct l1 as [|c l1]; [done|]. intros Hc. cbn. by rewrite Hc. Qed.

Lemma break_at_app_hit p l1 l2 before c rest :
  break_at p l1 = (before, c :: rest) →
  break_at p (l1 ++ l2) = (before, c :: rest ++ l2).
Proof.
  revert before. induction l1 as [|x l1 IH]; intros before; [discriminate|].
  cbn. destruct (p x); [by intros [= <- <- <-]|].
  destruct (break_at p l1) as [b r] eqn:Hb. intros [= <- ->].
  by rewrite (IH b eq_refl).
Qed.

Lemma break_at_app_miss p l1 l2 :
  forallb (λ c, negb (p c)) l1 = true → forallb (λ c, negb (p c)) l2 = true →
  break_at p (l1 ++ l2) = (l1 ++ l2, []).
Proof.
  intros H1 H2. apply break_at_miss. rewrite forallb_app. by rewrite H1, H2.
Qed.

Lemma str_app l1 l2 : str (l1 ++ l2) = str l1 +:+ str l2.
Proof. induction l1 as [|c l1 IH]; [reflexivity|]. cbn. by rewrite IH. Qed.

Lemma plain_id_free id (p : ascii → bool) :
  plain_id id →
  (∀ c, p c = true →
        c ∈ chars "/?#;" ++ ["009"; "013"; "010"]%char) →
  forallb (λ c, negb (p c)) (chars id) = true.
Proof.
  intros [_ Hplain] Hp. revert Hplain. apply forallb_weaken. intros c Hc.
  apply negb_true_iff. apply negb_true_iff in Hc.
  destruct (p c) eqn:Hpc; [|reflexivity].
  apply bool_decide_eq_false in Hc. destruct Hc. by apply Hp.
Qed.

Lemma is_char_special c c' :
  c' ∈ chars "/?#;" ++ ["009"; "013"; "010"]%char →
  is_char c' c = true →
  c ∈ chars "/?#;" ++ ["009"; "013"; "010"]%char.
Proof. unfold is_char. by intros Hc' ->%bool_decide_eq_true. Qed.

(** [urlparse] on the browsing URL of a plain identifier. *)
Lemma urlparse_book_url v1 v2 id :
  plain_id id →
  urlparse v1 v2 ("https://boardgamegeek.com/boardgame/" +:+ id)
  = Ok {| scheme := "https"; netloc := "boardgamegeek.com";
          path := "/boardgame/" +:+ id; params := ""; query := "";
          fragment := "" |}.
Proof.
  intros Hid. unfold urlparse. rewrite chars_append.
  rewrite lstrip_app_keep by reflexivity.
  rewrite List.filter_app.
  rewrite (filter_keep _ (chars id)).
  2:{ destruct Hid as [_ Hid]. revert Hid. apply forallb_weaken. intros c Hc.
      apply negb_true_iff. apply negb_true_iff in Hc.
      apply bool_decide_eq_false. apply bool_decide_eq_false in Hc.
      intros Hin. apply Hc. apply elem_of_app. by right. }
  replace (List.filter _ (chars "https://boardgamegeek.com/boardgame/"))
    with (chars "https://boardgamegeek.com/boardgame/")
    by (vm_compute; reflexivity).
  rewrite (break_at_app_hit _ _ _ (chars "https") ":"%char
             (chars "//boardgamegeek.com/boardgame/")) by reflexivity.
  change (chars "https") with ("h"%char :: chars "ttps").
  cbv beta iota.
  replace (is_alpha "h" && forallb is_scheme_char ("h"%char :: chars "ttps"))
    with true by reflexivity.
  change (chars "//boardgamegeek.com/boardgame/")
    with ("/"%char :: "/"%char :: chars "boardgamegeek.com/boardgame/").
  cbn [app]. cbv beta iota.
  rewrite (break_at_app_hit _ _ _ (chars "boardgamegeek.com") "/"%char
             (chars "boardgame/")) by reflexivity.
  cbv beta iota.
  replace (existsb (is_char "[") (chars "boardgamegeek.com")) with false
    by reflexivity.
  replace (existsb (is_char "]") (chars "boardgamegeek.com")) with false
    by reflexivity.
  cbn [xorb andb mbind Result_mbind Result_bind]. cbv beta iota.
  change ("/"%char :: chars "boardgame/" ++ chars id)
    with (chars "/boardgame/" ++ chars id).
  unfold split_once.
  rewrite (break_at_app_miss (is_char "#"))
    by (reflexivity || (apply plain_id_free; [done|];
                        intros c; apply is_char_special; set_solver)).
  cbn [tail]. cbv beta iota.
  rewrite (break_at_app_miss (is_char "?"))
    by (reflexivity || (apply plain_id_free; [done|];
                        intros c; apply is_char_special; set_solver)).
  cbn [tail]. cbv beta iota.
  replace (forallb (λ c, (nat_of_ascii c <? 128)%nat) (chars "boardgamegeek.com"))
    with true by reflexivity.
  rewrite orb_true_r. cbn [orb negb].
  rewrite existsb_app.
  rewrite (existsb_miss (is_char ";") (chars id))
    by (apply plain_id_free; [done|];
        intros c; apply is_char_special; set_solver).
  replace (existsb (is_char ";") (chars "/boardgame/")) with false by reflexivity.
  rewrite andb_false_r. cbv beta iota.
  rewrite str_app, (string_of_list_ascii_of_string id). reflexivity.
Qed.

Lemma split_segment sep l1 l2 :
  forallb (λ c, negb (is_char sep c)) l1 = true →
  split sep (l1 ++ sep :: l2) = l1 :: split sep l2.
Proof.
  induction l1 as [|c l1 IH]; cbn.
  - intros _. by rewrite bool_decide_eq_true_2.
  - intros [Hc Hl]%andb_true_iff. apply negb_true_iff in Hc.
    unfold is_char in Hc. rewrite Hc. by rewrite (IH Hl).
Qed.

(** The segments of the path of a browsing URL. *)
Lemma path_segments_book_url id :
  plain_id id → path_segments ("/boardgame/" +:+ id) = ["boardgame"; id].
Proof.
  intros Hplain.
  assert (Hfree : forallb (λ c, negb (is_char "/" c)) (chars id) = true).
  { apply plain_id_free; [done|]. intros c. apply is_char_special. set_solver. }
  unfold path_segments, strip. rewrite chars_append.
  change (chars "/boardgame/") with ("/"%char :: chars "boardgame/").
  cbn [app lstrip]. replace (is_char "/" "/") with true by reflexivity.
  rewrite lstrip_app_keep by reflexivity.
  destruct (chars id) as [|c l] eqn:Hchars using rev_ind.
  { destruct Hplain as [Hne _]. destruct id; [done|discriminate Hchars]. }
  clear IHl. rewrite app_assoc, rstrip_keep.
  2:{ rewrite forallb_app in Hfree. apply andb_true_iff in Hfree as [_ Hc].
      cbn in Hc. rewrite andb_true_r in Hc. by apply negb_true_iff. }
  rewrite <- app_assoc.
  change (chars "boardgame/") with (chars "boardgame" ++ ["/"%char]).
  rewrite <- app_assoc. cbn [app].
  rewrite split_segment by reflexivity.
  rewrite split_miss by exact Hfree.
  cbn [map]. rewrite <- Hchars, (string_of_list_ascii_of_string id). reflexivity.
Qed.

Lemma id_from_url_of_segments `{Host} url parsed id rest :
  urlparse bracketed_host_valid nfkc_netloc_valid url = Ok parsed →
  netloc parsed ∈ catalog_domains →
  path_segments (path parsed) = "boardgame" :: id :: rest →
  id_from_url url = Ok (Some (_ID_TYPE, id)).
Proof.
  intros Hparsed Hnetloc Hsegs. unfold id_from_url. rewrite Hparsed.
  cbn [mbind Result_mbind Result_bind]. fold catalog_domains.
  rewrite (bool_decide_eq_true_2 _ Hnetloc). cbn [negb].
  unfold path_segments in Hsegs. rewrite Hsegs. reflexivity.
Qed.

(** The browsing URL that [get_book_url] builds for a plain identifier is
    read back by [id_from_url] as that identifier, under the namespace of
    the plugin. *)
Theorem book_url_round_trip `{Host} (ids : gmap string string) (id : string) :
  ids !! _ID_TYPE = Some id → plain_id id →
  ∃ url, get_book_url ids = Some (_ID_TYPE, id, url)
         ∧ id_from_url url = Ok (Some (_ID_TYPE, id)).
Proof.
  intros Hid Hplain. exists ("https://boardgamegeek.com/boardgame/" +:+ id).
  split.
  - unfold get_book_url, truthy. rewrite Hid.
    destruct Hplain as [Hne _]. by rewrite bool_decide_eq_false_2.
  - eapply (id_from_url_of_segments _ _ id []).
    + by apply urlparse_book_url.
    + apply list_elem_of_In. right. left. reflexivity.
    + by apply path_segments_book_url.
Qed.

Lemma book_url_round_trip_witness :
  ∃ url, get_book_url {[ _ID_TYPE := "4098" ]} = Some (_ID_TYPE, "4098", url)
         ∧ @id_from_url down_host url = Ok (Some (_ID_TYPE, "4098")).
Proof.
  apply (@book_url_round_trip down_host).
  - reflexivity.
  - split; [discriminate|reflexivity].
Defined.



(** ** What a lookup can raise *)





(** ** The queue and the requests of one call *)


(** [identify] only adds: the records and requests found in the world stay
    where they are, what the call pushes and sends comes after them, and
    neither that nor what the call returns depends on what was there. *)
Theorem identify_appends `{Host} (title : option string)
    (authors : option (list string)) (ids : option (gmap string string))
    (w : World) :
  (identify title authors ids w).1 = (identify title authors ids world0).1
  ∧ result_queue (identify title authors ids w).2
    = result_queue w ++ result_queue (identify title authors ids world0).2
  ∧ opened (identify title authors ids w).2
    = opened w ++ opened (identify title authors ids world0).2.
Proof.
  assert (Hframed : framed (identify title authors ids)).
  { unfold identify. destruct (default ∅ ids !! _ID_TYPE) as [bggeek_id|].
    - destruct (truthy bggeek_id);
        [apply framed_thing_api|apply framed_search_title].
    - apply framed_search_title. }
  rewrite (Hframed w). by repeat split.
Qed.

(** A candidate lookup that raises pushes nothing and sends at most its one
    request. *)
Lemma candidate_lookup_raise `{Host} i item e :
  (candidate_lookup i item).1 = Raise e →
  result_queue (candidate_lookup i item).2 = []
  ∧ (length (opened (candidate_lookup i item).2) ≤ 1)%nat.
Proof.
  rewrite candidate_lookup_unfold.
  destruct (getitem item "id") as [id|e0]; [|by intros _; cbn; split; [|lia]].
  pose proof (thing_api_outcome id (Z.of_nat i) world0) as Hout.
  destruct (_get_metadata_from_thing_api id (Z.of_nat i) world0) as [r d].
  cbn [fst snd] in *. intros ->. destruct Hout as [-> [Hq|[Hr _]]].
  - by split.
  - discriminate Hr.
Qed.

(** The candidates either are all looked up normally, or there is a first
    one whose lookup raises. *)
Lemma candidates_decompose `{Host} items :
  (∀ i item, items !! i = Some item → (candidate_lookup i item).1 = Ok ())
  ∨ ∃ before item after e,
      items = before ++ item :: after
      ∧ (∀ i c, before !! i = Some c → (candidate_lookup i c).1 = Ok ())
      ∧ (candidate_lookup (length before) item).1 = Raise e.
Proof.
  induction items as [|x items IH] using rev_ind.
  - left. intros i item Hi. discriminate Hi.
  - destruct IH as [Hok|(before & item & after & e & -> & Hok & Hraise)].
    + destruct (candidate_lookup (length items) x).1 as [[]|e] eqn:Hx.
      * left. intros i item Hi.
        apply lookup_app_Some in Hi as [Hi|[Hlen Hi]]; [by apply Hok|].
        apply list_lookup_singleton_Some in Hi as [Hi ->].
        replace i with (length items) by lia. exact Hx.
      * right. exists items, x, [], e. by repeat split.
    + right. exists before, item, (after ++ [x]), e.
      rewrite <- app_assoc. by repeat split.
Qed.

(** Records that come position by position, at most one per position and
    ranked by it, are in strictly increasing order of rank. *)
Lemma ranked_records_sorted (records : list (list Metadata)) (offset : nat) :
  (∀ i ms, records !! i = Some ms →
           ms = [] ∨ ∃ m, ms = [m]
                          ∧ source_relevance m = Z.of_nat (offset + i)) →
  StronglySorted Z.lt (map source_relevance (concat records))
  ∧ Forall (λ m, Z.of_nat offset ≤ source_relevance m
                 < Z.of_nat (offset + length records)) (concat records)
  ∧ (length (concat records) ≤ length records)%nat.
Proof.
  revert offset. induction records as [|ms records IH]; intros offset Hranks.
  - cbn. repeat split; constructor.
  - destruct (IH (S offset)) as (Hsorted & Hrange & Hlen).
    { intros i ms' Hi. destruct (Hranks (S i) ms' Hi) as [->|(m & -> & Hm)];
        [by left|]. right. exists m. split; [done|]. rewrite Hm. f_equal. lia. }
    destruct (Hranks 0%nat ms eq_refl) as [->|(m & -> & Hm)]; cbn.
    + split; [exact Hsorted|]. split; [|lia].
      eapply Forall_impl; [exact Hrange|]. cbn. intros m' ?. lia.
    + split; [|split; [|lia]].
      * constructor; [exact Hsorted|]. apply List.Forall_forall.
        intros r [m' [<- Hm']]%in_map_iff.
        rewrite List.Forall_forall in Hrange. specialize (Hrange m' Hm'). lia.
      * constructor; [lia|].
        eapply Forall_impl; [exact Hrange|]. cbn. intros m' ?. lia.
Qed.

(** Whatever the candidates' lookups do, what a title search pushes comes
    position by position: at most one record per candidate, ranked by the
    position of the candidate; and it sends at most the search request and
    one request per candidate. *)
Lemma search_records_by_position `{Host} (title : option string)
    (authors : option (list string)) (ids : option (gmap string string))
    (w : World) (response : string) (soup : PageElement) :
  (∀ m, source_relevance (clean_downloaded_metadata m) = source_relevance m) →
  no_bggeek_id ids →
  open_novisit (search_url (get_title_tokens title)) = Ok response →
  BeautifulSoup response = Ok soup →
  ∃ records,
    result_queue (identify title authors ids w).2
    = result_queue w ++ concat records
    ∧ (∀ i ms, records !! i = Some ms →
               ms = [] ∨ ∃ m, ms = [m]
                              ∧ source_relevance m = Z.of_nat (0 + i))
    ∧ (length records ≤ length (find_all soup "item" (Some "rpgitem")))%nat
    ∧ (length (opened (identify title authors ids w).2)
       ≤ length (opened w) + 1
         + length (find_all soup "item" (Some "rpgitem")))%nat.
Proof.
  intros Hclean Hno Hopen Hparse.
  rewrite (identify_search_branch _ _ _ _ Hno).
  assert (Hcleaned : ∀ records : list (list Metadata),
            (∀ i ms, records !! i = Some ms →
                     ms = [] ∨ ∃ m, ms = [clean_downloaded_metadata m]
                                    ∧ source_relevance m = Z.of_nat i) →
            ∀ i ms, records !! i = Some ms →
                    ms = [] ∨ ∃ m, ms = [m]
                                   ∧ source_relevance m = Z.of_nat (0 + i)).
  { intros records Hranks i ms Hi.
    destruct (Hranks i ms Hi) as [->|(m & -> & Hm)]; [by left|].
    right. eexists. split; [reflexivity|]. by rewrite Hclean. }
  destruct (candidates_decompose (find_all soup "item" (Some "rpgitem")))
    as [Hok|(before & item & after & e & Hitems & Hok & Hraise)].
  - destruct (search_title_all_ok title w response soup Hopen Hparse Hok)
      as (cids & records & Hids & -> & Hlen & Hranks).
    exists records. cbn [snd result_queue opened].
    split; [reflexivity|]. split; [by apply Hcleaned|]. split; [lia|].
    apply Forall2_length in Hids.
    rewrite length_app. cbn [length]. rewrite length_map. lia.
  - rewrite (search_title_run _ _ _ _ Hopen Hparse), Hitems.
    rewrite (search_loop_raise before item after e) by done.
    destruct (candidates_ok_summary _ Hok)
      as (cids & records & Hids & Hopened & -> & Hlen & Hranks).
    destruct (candidate_lookup_raise _ _ _ Hraise) as [Hq Hsent].
    eexists. cbn [snd result_queue opened]. rewrite Hq, app_nil_r.
    split; [reflexivity|]. split; [by apply Hcleaned|].
    rewrite Hopened. apply Forall2_length in Hids.
    rewrite !length_app. cbn [length]. rewrite length_map.
    split; lia.
Qed.



(** A search that is answered without a candidate of the kind it selects
    ends [identify] normally, after the one search request and with nothing
    pushed, whatever other items the response holds. *)
Theorem search_without_candidates `{Host} (title : option string)
    (authors : option (list string)) (ids : option (gmap string string))
    (w : World) (response : string) (soup : PageElement) :
  no_bggeek_id ids →
  open_novisit (search_url (get_title_tokens title)) = Ok response →
  BeautifulSoup response = Ok soup →
  no_match soup "item" (Some "rpgitem") →
  identify title authors ids w
  = (Ok (), {| result_queue := result_queue w;
               opened := opened w ++ [search_url (get_title_tokens title)] |}).
Proof.
  intros Hno Hopen Hparse Hnone.
  rewrite (identify_search_branch _ _ _ _ Hno).
  rewrite (search_title_run _ _ _ _ Hopen Hparse).
  assert (find_all soup "item" (Some "rpgitem") = []) as ->; [|reflexivity].
  unfold no_match in Hnone. unfold find_all.
  induction Hnone as [|e l He _ IH]; [reflexivity|]. cbn. by rewrite He.
Qed.

Lemma search_without_candidates_witness :
  @identify other_kinds_host (Some "catan") None None world0
  = (Ok (), {| result_queue := []; opened := [search_url ["catan"]] |}).
Proof.
  apply (@search_without_candidates other_kinds_host (Some "catan") None None
           world0 (search_url ["catan"])
           (document [search_item "boardgame" "13";
                      search_item "boardgameexpansion" "926"])).
  - intros id Hid. discriminate Hid.
  - reflexivity.
  - reflexivity.
  - unfold no_match. apply Forall_forall. intros e He.
    apply list_elem_of_In in He. vm_compute in He.
    repeat (destruct He as [<-|He]; [reflexivity|]). destruct He.
Defined.

Lemma strongly_sorted_lookup {A} (R : A → A → Prop) l i j x y :
  StronglySorted R l → l !! i = Some x → l !! j = Some y → (i < j)%nat → R x y.
Proof.
  intros Hsorted. revert i j. induction Hsorted as [|a l _ IH Hall];
    intros i j Hi Hj Hij; [discriminate Hi|].
  destruct j as [|j]; [lia|]. cbn in Hj. destruct i as [|i].
  - injection Hi as <-. rewrite List.Forall_forall in Hall. apply Hall.
    apply list_elem_of_In. by eapply list_elem_of_lookup_2.
  - cbn in Hi. apply (IH i j); [done|done|lia].
Qed.

(** The order in which a title search pushes its records is the order of
    the keys of [identify_results_keygen]: of two records of one search, the
    one pushed first has the smaller key. *)
Theorem search_queue_order_is_key_order `{Host} (title : option string)
    (authors : option (list string)) (ids : option (gmap string string))
    (w : World) (response : string) (soup : PageElement) :
  (∀ m, source_relevance (clean_downloaded_metadata m) = source_relevance m) →
  no_bggeek_id ids →
  open_novisit (search_url (get_title_tokens title)) = Ok response →
  BeautifulSoup response = Ok soup →
  ∃ new,
    result_queue (identify title authors ids w).2 = result_queue w ++ new
    ∧ ∀ i j first second,
        new !! i = Some first → new !! j = Some second → (i < j)%nat →
        _KeyGen.__lt__ (identify_results_keygen title authors ids first)
          (identify_results_keygen title authors ids second) = true.
Proof.
  intros Hclean Hno Hopen Hparse.
  destruct (search_records_by_position title authors ids w response soup
              Hclean Hno Hopen Hparse) as (records & Hq & Hranks & _).
  destruct (ranked_records_sorted records 0 Hranks) as (Hsorted & _).
  exists (concat records). split; [exact Hq|]. intros i j first second Hi Hj Hij.
  unfold _KeyGen.__lt__. rewrite !keygen_relevance. apply Z.ltb_lt.
  apply (strongly_sorted_lookup Z.lt
           (map source_relevance (concat records)) i j);
    [exact Hsorted| | |exact Hij].
  - change (map source_relevance (concat records))
      with (source_relevance <$> concat records).
    by rewrite list_lookup_fmap, Hi.
  - change (map source_relevance (concat records))
      with (source_relevance <$> concat records).
    by rewrite list_lookup_fmap, Hj.
Qed.

Lemma search_queue_order_is_key_order_witness :
  ∃ new,
    result_queue (@identify abc_host (Some "catan") None None world0).2
    = [] ++ new
    ∧ ∀ i j first second,
        new !! i = Some first → new !! j = Some second → (i < j)%nat →
        _KeyGen.__lt__ (identify_results_keygen (Some "catan") None None first)
          (identify_results_keygen (Some "catan") None None second) = true.
Proof.
  apply (@search_queue_order_is_key_order abc_host (Some "catan") None None
           world0 (search_url ["catan"])
           (document [search_item "rpgitem" "A"; search_item "boardgame" "Z";
                      search_item "rpgitem" "B"; search_item "rpgitem" "C"])).
  - reflexivity.
  - intros id Hid. discriminate Hid.
  - reflexivity.
  - reflexivity.
Defined.


